(** * fedsd_helper: event-name table and SVG string primitives

    Shallow embedding of [util/tracing/visualization/fedsd_helper.py]
    (lingua-franca): the module-level dictionary [prune_event_name] and the
    functions that build SVG fragments by string concatenation.

    Python values are modelled as follows.
    - [int] is [Z]; [str(int)] is the decimal rendering with a leading minus
      sign for negative numbers.
    - [str] is [string]; [+] on strings is [String.append] (written [+:+]).
    - [dict] is a [gmap string string]; subscription of a missing key raises
      [KeyError].
    - [float] is abstract: the functions only use true division of two
      integers, [math.atan], multiplication by an integer, division by the
      literal [3.14] and [math.ceil].  These are the fields of the class
      [PyFloat].  The two exceptions of the true division of integers are
      modelled explicitly: [ZeroDivisionError] on a zero divisor, and
      [OverflowError] when the quotient lies beyond the range of a float.
    - The module globals are threaded through every call in a state and
      exception monad, so that the effect of a call on the table is part of
      its meaning. *)

From Stdlib Require Import ZArith Lia Ascii String DecimalString DecimalZ
  DecimalPos Reals Lra.
From stdpp Require Import strings gmap.

Local Open Scope string_scope.
Local Open Scope Z_scope.

(** ** Python runtime model *)

Module Py.

(** The exceptions the module can raise. *)
Inductive exn : Type :=
| ZeroDivisionError
| OverflowError
| KeyError (key : string).

Inductive result (A : Type) : Type :=
| Ok (a : A)
| Raise (e : exn).
Arguments Ok {A} a.
Arguments Raise {A} e.

(** Module-level variables of [fedsd_helper]. *)
Record globals : Type := Globals { g_prune_event_name : gmap string string }.

(** Computations: read and write the globals, return a value or raise. *)
Definition M (A : Type) : Type := globals → result A * globals.

Definition ret {A} (a : A) : M A := λ g, (Ok a, g).
Definition raise {A} (e : exn) : M A := λ g, (Raise e, g).
Definition bind {A B} (m : M A) (k : A → M B) : M B :=
  λ g, match m g with
       | (Ok a, g') => k a g'
       | (Raise e, g') => (Raise e, g')
       end.
Definition get : M globals := λ g, (Ok g, g).
Definition put (g' : globals) : M unit := λ _, (Ok tt, g').

(** One-character strings that cannot be written inside a literal. *)
Definition dq : string := String (Ascii.ascii_of_nat 34) EmptyString.
Definition tab : string := String (Ascii.ascii_of_nat 9) EmptyString.
Definition nl : string := String (Ascii.ascii_of_nat 10) EmptyString.

(** [str(n)] for an [int]. *)
Definition str (n : Z) : string := NilZero.string_of_int (Z.to_int n).

(** [needle in haystack] for strings. *)
Fixpoint contains (needle hay : string) : bool :=
  String.prefix needle hay ||
  match hay with
  | EmptyString => false
  | String _ hay' => contains needle hay'
  end.

(** Number of occurrences of a character, [s.count(c)]. *)
Fixpoint count (c : Ascii.ascii) (s : string) : nat :=
  match s with
  | EmptyString => O
  | String c' s' => ((if Ascii.eqb c c' then 1 else 0) + count c s')%nat
  end.

(** A dict display [{k1: v1, ..., kn: vn}]: the pairs are stored from left
    to right, a repeated key keeps the last value. *)
Definition dict_display (kvs : list (string * string)) : gmap string string :=
  foldl (λ d kv, <[kv.1 := kv.2]> d) ∅ kvs.

(** [d.setdefault(k, v)]: the value of [k] when present; otherwise [k] is
    inserted with [v], and [v] is returned. *)
Definition dict_setdefault (d : gmap string string) (k v : string)
  : string * gmap string string :=
  match d !! k with
  | Some v' => (v', d)
  | None => (v, <[k := v]> d)
  end.

(** [d[k]]: raises [KeyError] when [k] is missing. *)
Definition dict_getitem (d : gmap string string) (k : string) : M string :=
  match d !! k with
  | Some v => ret v
  | None => raise (KeyError k)
  end.

(** What the module needs of Python's [float]. *)
Class PyFloat (F : Type) : Type := {
  (** [a / b] for two ints, [b] nonzero and the quotient in range *)
  int_truediv : Z → Z → F;
  (** [math.atan(x)] *)
  math_atan : F → F;
  (** [x * n] for a float and an int *)
  mul_int : F → Z → F;
  (** [x / 3.14] *)
  div_3_14 : F → F;
  (** [math.ceil(x)], an int *)
  math_ceil : F → Z
}.

(** The quotient of two ints is rounded to the nearest float, ties to even.
    The largest float is [2^1024 - 2^971]; a quotient of magnitude
    [2^1024 - 2^970] or more would round to [2^1024], which is no float. *)
Definition float_overflow (a b : Z) : bool :=
  ((2 ^ 1024 - 2 ^ 970) * Z.abs b <=? Z.abs a)%Z.

(** [a / b] on ints: the divisor is tested first, then the range. *)
Definition truediv `{PyFloat F} (a b : Z) : M F :=
  if (b =? 0)%Z then raise ZeroDivisionError
  else if float_overflow a b then raise OverflowError
  else ret (int_truediv a b).

End Py.
Export Py.

#[export] Instance M_ret : MRet M := @Py.ret.
#[export] Instance M_bind : MBind M := λ A B k m, Py.bind m k.

(** ** The module body: the table *)

(** Lines 5-33: the dict display bound to [prune_event_name]. *)
Definition prune_event_name_display : list (string * string) :=
  [ ("Federate sends TIMESTAMP to RTI", "TIMESTAMP");
    ("Federate sends NET to RTI", "NET");
    ("Federate sends LTC to RTI", "LTC");
    ("Federate sends STOP_REQ to RTI", "STOP_REQ");
    ("Federate sends STOP_REQ_REP to RTI", "STOP_REQ_REP");
    ("Federate receives ACK from RTI", "ACK");
    ("Federate receives REJECT from RTI", "REJECT");
    ("Federate receives TIMESTAMP from RTI", "TIMESTAMP");
    ("Federate receives PTAG from RTI", "PTAG");
    ("Federate receives TAG from RTI", "TAG");
    ("Federate receives STOP_REQ from RTI", "STOP_REQ");
    ("Federate receives STOP_GRN from RTI", "STOP_GRN");
    ("Federate sends FED_ID to federate", "FED_ID");
    ("Federate receives FED_ID from federate", "FED_ID");
    ("RTI sends ACK to federate", "ACK");
    ("RTI sends REJECT to federate", "REJECT");
    ("RTI sends TIMESTAMP to federate", "TIMESTAMP");
    ("RTI sends PTAG to federate", "PTAG");
    ("RTI sends TAG to federate", "TAG");
    ("RTI sends STOP_REQ to federate", "STOP_REQ");
    ("RTI sends STOP_GRN to federate", "STOP_GRN");
    ("RTI sends JOIN to federate", "JOIN");
    ("RTI receives TIMESTAMP from federate", "TIMESTAMP");
    ("RTI receives NET from federate", "NET");
    ("RTI receives LTC from federate", "LTC");
    ("RTI receives STOP_REQ from federate", "STOP_REQ");
    ("RTI receives STOP_REQ_REP from federate", "STOP_REQ_REP") ].

(** The statements executed when the module is imported (lines 5-35):
    the assignment of the display, then
    [prune_event_name.setdefault(" ", "UNIDENTIFIED")]. *)
Definition module_body : M unit :=
  _ ← put (Globals (dict_display prune_event_name_display));
  g ← get;
  let '(_, d) := dict_setdefault (g_prune_event_name g) " " "UNIDENTIFIED" in
  put (Globals d).

(** The globals once the module is imported. *)
Definition initial_globals : globals := (module_body (Globals ∅)).2.

(** The table after initialization. *)
Definition prune_event_name : gmap string string :=
  g_prune_event_name initial_globals.

(** [prune_event_name[e]], the lookup by which an event description is
    replaced by its short tag. *)
Definition prune_event_name_getitem (e : string) : M string :=
  g ← get;
  dict_getitem (g_prune_event_name g) e.

(** ** Routines that build the svg strings *)

(** [svg_string_draw_line(x1, y1, x2, y2, dashed)], lines 41-59. *)
Definition svg_string_draw_line (x1 y1 x2 y2 : Z) (dashed : bool) : M string :=
  let str_line :=
    tab +:+ "<line x1=" +:+ dq +:+ str x1 +:+ dq +:+ " y1=" +:+ dq +:+ str y1
        +:+ dq +:+ " x2=" +:+ dq +:+ str x2 +:+ dq +:+ " y2=" +:+ dq +:+ str y2
        +:+ dq +:+ " stroke=" +:+ dq +:+ "black" +:+ dq
        +:+ " stroke-width=" +:+ dq +:+ "2" +:+ dq in
  let str_line :=
    if dashed
    then str_line +:+ " stroke-dasharray=" +:+ dq +:+ "10,10" +:+ dq +:+ " "
    else str_line in
  let str_line := str_line +:+ "/>" +:+ nl in
  mret str_line.

(** [svg_string_draw_arrow_head(x1, x2, y2)], lines 62-78. *)
Definition svg_string_draw_arrow_head (x1 x2 y2 : Z) : M string :=
  let str_line := EmptyString in
  let str_line :=
    if (x1 >? x2)%Z
    then tab +:+ "<path d=" +:+ dq +:+ "M" +:+ str x2 +:+ " " +:+ str y2
             +:+ " L" +:+ str (x2 + 10) +:+ " " +:+ str (y2 + 5)
             +:+ " L" +:+ str (x2 + 10) +:+ " " +:+ str (y2 - 5)
             +:+ " Z" +:+ dq +:+ " />" +:+ nl
    else tab +:+ "<path d=" +:+ dq +:+ "M" +:+ str x2 +:+ " " +:+ str y2
             +:+ " L" +:+ str (x2 - 10) +:+ " " +:+ str (y2 + 5)
             +:+ " L" +:+ str (x2 - 10) +:+ " " +:+ str (y2 - 5)
             +:+ " Z" +:+ dq +:+ " />" +:+ nl in
  mret str_line.

(** [svg_string_comment(comment)], lines 129-139. *)
Definition svg_string_comment (comment : string) : M string :=
  let str_line := nl +:+ tab +:+ "<!-- " +:+ comment +:+ " -->" +:+ nl in
  mret str_line.

(** [svg_string_draw_dot(x, y, label)], lines 142-156. *)
Definition svg_string_draw_dot (x y : Z) (label : string) : M string :=
  let str_line := EmptyString in
  let str_line :=
    tab +:+ "<circle cx=" +:+ dq +:+ str x +:+ dq +:+ " cy=" +:+ dq +:+ str y
        +:+ dq +:+ " r=" +:+ dq +:+ "5" +:+ dq +:+ " stroke=" +:+ dq +:+ "black"
        +:+ dq +:+ " stroke-width=" +:+ dq +:+ "1" +:+ dq +:+ " fill=" +:+ dq
        +:+ "black" +:+ dq +:+ "/>" +:+ nl in
  let str_line :=
    str_line +:+ tab +:+ "<text x=" +:+ dq +:+ str (x + 5) +:+ dq +:+ ", y="
             +:+ dq +:+ str (y + 2) +:+ dq +:+ " fill=" +:+ dq +:+ "blue" +:+ dq
             +:+ " font-size=" +:+ dq +:+ "smaller" +:+ dq +:+ ">" +:+ label
             +:+ "</text>" +:+ nl in
  mret str_line.

Section WithFloat.
Context {F : Type} `{PyFloat F}.

(** [svg_string_draw_label(x1, y1, x2, y2, label)], lines 81-105. *)
Definition svg_string_draw_label (x1 y1 x2 y2 : Z) (label : string) : M string :=
  if (x2 <? x1)%Z then
    q ← truediv (x2 - x1) (y2 - y1);
    let rotation := - math_ceil (div_3_14 (mul_int (math_atan q) 180)) - 90 in
    let str_line :=
      tab +:+ "<text transform=" +:+ dq +:+ "translate(" +:+ str (x2 + 5)
          +:+ ", " +:+ str (y2 - 5) +:+ ") rotate(" +:+ str rotation +:+ ")"
          +:+ dq +:+ " font-size=" +:+ dq +:+ "smaller" +:+ dq +:+ ">"
          +:+ label +:+ "</text>" +:+ nl in
    mret str_line
  else
    q ← truediv (x1 - x2) (y1 - y2);
    let rotation := - math_ceil (div_3_14 (mul_int (math_atan q) 180)) + 90 in
    mx ← truediv (x2 + x1) 2;
    let x := math_ceil mx in
    my ← truediv (y1 + y2) 2;
    let y := math_ceil my - 5 in
    let str_line :=
      tab +:+ "<text transform=" +:+ dq +:+ "translate(" +:+ str x
          +:+ ", " +:+ str y +:+ ") rotate(" +:+ str rotation +:+ ")"
          +:+ dq +:+ " font-size=" +:+ dq +:+ "smaller" +:+ dq
          +:+ " text-anchor=" +:+ dq +:+ "middle" +:+ dq +:+ ">"
          +:+ label +:+ "</text>" +:+ nl in
    mret str_line.

(** [svg_string_draw_arrow(x1, y1, x2, y2, label, dashed)], lines 108-126. *)
Definition svg_string_draw_arrow (x1 y1 x2 y2 : Z) (label : string)
    (dashed : bool) : M string :=
  str_line1 ← svg_string_draw_line x1 y1 x2 y2 dashed;
  str_line2 ← svg_string_draw_arrow_head x1 x2 y2;
  str_line3 ← svg_string_draw_label x1 y1 x2 y2 label;
  mret (str_line1 +:+ str_line2 +:+ str_line3).

(** A call of one of the routines of the module, or a lookup in the
    table. *)
Inductive call : Type :=
| CallDrawLine (x1 y1 x2 y2 : Z) (dashed : bool)
| CallDrawArrowHead (x1 x2 y2 : Z)
| CallDrawLabel (x1 y1 x2 y2 : Z) (label : string)
| CallDrawArrow (x1 y1 x2 y2 : Z) (label : string) (dashed : bool)
| CallComment (comment : string)
| CallDrawDot (x y : Z) (label : string)
| CallLookup (event : string).

Definition run_call (c : call) : M string :=
  match c with
  | CallDrawLine x1 y1 x2 y2 dashed => svg_string_draw_line x1 y1 x2 y2 dashed
  | CallDrawArrowHead x1 x2 y2 => svg_string_draw_arrow_head x1 x2 y2
  | CallDrawLabel x1 y1 x2 y2 label => svg_string_draw_label x1 y1 x2 y2 label
  | CallDrawArrow x1 y1 x2 y2 label dashed =>
      svg_string_draw_arrow x1 y1 x2 y2 label dashed
  | CallComment comment => svg_string_comment comment
  | CallDrawDot x y label => svg_string_draw_dot x y label
  | CallLookup event => prune_event_name_getitem event
  end.

End WithFloat.

(** ** Exact real arithmetic as an instance of the float interface

    The instance reads every float operation as the operation on real
    numbers it approximates, without the rounding of a float.  It is an
    idealization: it gives the result of the code only where no rounding
    changes a ceiling.  It is used below on diagonals, where the quotient
    of the deltas is exactly 1, and on small even sums only; the general
    statements are made for every instance of the interface.  [up r] is the
    integer with [r < up r <= r + 1], hence the ceiling of [x] is
    [1 - up (- x)]. *)
Definition R_ceil (x : R) : Z := 1 - up (- x).

#[export] Instance R_PyFloat : PyFloat R := {|
  int_truediv a b := (IZR a / IZR b)%R;
  math_atan := atan;
  mul_int x n := (x * IZR n)%R;
  div_3_14 x := (x / 3.14)%R;
  math_ceil := R_ceil
|}.

(** ** Reference renderings used in the statements *)

(** The dash pattern attribute, [stroke-dasharray="10,10"], and its name. *)
Definition dash_attribute_name : string := "stroke-dasharray".
Definition dash_marker : string :=
  dash_attribute_name +:+ "=" +:+ dq +:+ "10,10" +:+ dq.

(** A closed path through three points: the tip and the two base vertices. *)
Definition triangle_path (tip b1 b2 : Z * Z) : string :=
  tab +:+ "<path d=" +:+ dq
      +:+ "M" +:+ str tip.1 +:+ " " +:+ str tip.2
      +:+ " L" +:+ str b1.1 +:+ " " +:+ str b1.2
      +:+ " L" +:+ str b2.1 +:+ " " +:+ str b2.2
      +:+ " Z" +:+ dq +:+ " />" +:+ nl.

(** How a text element is aligned on its anchor point: the default (the
    text starts at the anchor) or [text-anchor="middle"]. *)
Inductive alignment : Type := AlignStart | AlignMiddle.

Definition alignment_attribute (a : alignment) : string :=
  match a with
  | AlignStart => EmptyString
  | AlignMiddle => " text-anchor=" +:+ dq +:+ "middle" +:+ dq
  end.

(** A text element translated to [anchor], rotated by [rotation] degrees. *)
Definition text_element (anchor : Z * Z) (rotation : Z) (a : alignment)
    (label : string) : string :=
  tab +:+ "<text transform=" +:+ dq
      +:+ "translate(" +:+ str anchor.1 +:+ ", " +:+ str anchor.2 +:+ ")"
      +:+ " rotate(" +:+ str rotation +:+ ")" +:+ dq
      +:+ " font-size=" +:+ dq +:+ "smaller" +:+ dq
      +:+ alignment_attribute a +:+ ">" +:+ label +:+ "</text>" +:+ nl.

(** The conversion of an angle in radians to degrees, on real numbers. *)
Definition R_degrees (v : R) : R := (v * 180 / PI)%R.

(** Whether one of the divisions of the label routine leaves the range of
    a float: the quotient of the deltas in both branches, and the two
    midpoints in the branch [x2 >= x1]. *)
Definition label_overflows (x1 y1 x2 y2 : Z) : bool :=
  if x2 <? x1 then float_overflow (x2 - x1) (y2 - y1)
  else float_overflow (x1 - x2) (y1 - y2)
       || float_overflow (x2 + x1) 2
       || float_overflow (y1 + y2) 2.

(** The characters [str] can produce. *)
Definition numeric (c : Ascii.ascii) : bool :=
  (0 <? count c "0123456789-")%nat.

(** The short tags of the glossary. *)
Definition glossary_tags : list string :=
  [ "TIMESTAMP"; "NET"; "LTC"; "STOP_REQ"; "STOP_GRN"; "PTAG"; "TAG"; "ACK";
    "REJECT"; "FED_ID"; "JOIN" ].

(** The globals after a sequence of calls. *)
Definition run_calls `{PyFloat F} (cs : list call) (g : globals)
    : globals :=
  foldl (λ g c, (run_call c g).2) g cs.

(** A computation that leaves the globals as it found them. *)
Definition preserves_globals {A} (m : M A) : Prop := ∀ g, (m g).2 = g.

(** [s.removeprefix(p)] when [s] starts with [p], nothing otherwise. *)
Fixpoint strip_prefix (p s : string) : option string :=
  match p, s with
  | EmptyString, _ => Some s
  | String a p', String b s' =>
      if Ascii.eqb a b then strip_prefix p' s' else None
  | String _ _, EmptyString => None
  end.

(** [s.removesuffix(t)] when [s] ends with [t], nothing otherwise. *)
Fixpoint strip_suffix (t s : string) : option string :=
  if String.eqb s t then Some EmptyString
  else match s with
       | EmptyString => None
       | String c s' => String c <$> strip_suffix t s'
       end.

(** The part of [s] between the prefix [p] and the suffix [t]. *)
Definition between (p t s : string) : option string :=
  strip_prefix p s ≫= strip_suffix t.

(** The descriptions of one message type as the two sides of an exchange
    log it. *)
Definition federate_sends (tag : string) : string :=
  "Federate sends " +:+ tag +:+ " to RTI".
Definition rti_receives (tag : string) : string :=
  "RTI receives " +:+ tag +:+ " from federate".
Definition rti_sends (tag : string) : string :=
  "RTI sends " +:+ tag +:+ " to federate".
Definition federate_receives (tag : string) : string :=
  "Federate receives " +:+ tag +:+ " from RTI".

(** ** Strings *)

Lemma append_cons x (a b : string) : String x a +:+ b = String x (a +:+ b).
Proof. reflexivity. Qed.

Lemma append_assoc (a b c : string) : (a +:+ b) +:+ c = a +:+ (b +:+ c).
Proof.
  induction a as [|x a IH]; [reflexivity |].
  now rewrite !append_cons, IH.
Qed.

Lemma prefix_spec (m s : string) :
  String.prefix m s = true ↔ ∃ b, s = m +:+ b.
Proof.
  revert s. induction m as [|x m IH]; intros s.
  - split; [intros _; now exists s | intros _; now destruct s].
  - destruct s as [|y s]; simpl.
    + split; [discriminate | intros [b Hb]; discriminate].
    + destruct (ascii_dec x y) as [->|Hne].
      * rewrite IH. split; intros [b Hb]; exists b;
          rewrite ?append_cons in *; congruence.
      * split; [discriminate | intros [b Hb]].
        rewrite append_cons in Hb. congruence.
Qed.

(** [contains] is the substring relation. *)
Lemma contains_spec (m s : string) :
  contains m s = true ↔ ∃ a b, s = a +:+ m +:+ b.
Proof.
  induction s as [|y s IH]; cbn [contains].
  - rewrite orb_false_r, prefix_spec. split.
    + intros [b Hb]. now exists EmptyString, b.
    + intros [a [b Hab]]. destruct a; [now exists b | discriminate].
  - rewrite orb_true_iff, prefix_spec, IH. split.
    + intros [[b Hb] | [a [b Hab]]].
      * now exists EmptyString, b.
      * exists (String y a), b. now rewrite append_cons, Hab.
    + intros [a [b Hab]]. destruct a as [|x a].
      * left. now exists b.
      * right. exists a, b. rewrite append_cons in Hab. congruence.
Qed.

Lemma contains_append_l (m a s : string) :
  contains m s = true → contains m (a +:+ s) = true.
Proof.
  rewrite !contains_spec. intros [a' [b ->]].
  exists (a +:+ a'), b. now rewrite append_assoc.
Qed.

Lemma contains_append_r (m s b : string) :
  contains m s = true → contains m (s +:+ b) = true.
Proof.
  rewrite !contains_spec. intros [a [b' ->]].
  exists a, (b' +:+ b). now rewrite !append_assoc.
Qed.

Lemma count_append c (a b : string) :
  count c (a +:+ b) = (count c a + count c b)%nat.
Proof.
  induction a as [|x a IH]; [reflexivity |].
  rewrite append_cons. simpl. rewrite IH. lia.
Qed.

Lemma contains_count c (m s : string) :
  contains m s = true → (count c m ≤ count c s)%nat.
Proof.
  rewrite contains_spec. intros [a [b ->]]. rewrite !count_append. lia.
Qed.

Lemma count_string_of_uint c (d : Decimal.uint) :
  numeric c = false → count c (NilEmpty.string_of_uint d) = O.
Proof.
  intros Hc. unfold numeric in Hc. simpl in Hc.
  induction d; simpl; rewrite ?IHd; try reflexivity;
    match goal with
    | |- context [Ascii.eqb c ?x] =>
        destruct (Ascii.eqb c x) eqn:E; [| reflexivity];
        apply Ascii.eqb_eq in E; subst c; discriminate Hc
    end.
Qed.

Lemma count_str c (n : Z) : numeric c = false → count c (str n) = O.
Proof.
  intros Hc. unfold str.
  assert (Hu : ∀ d, count c (NilZero.string_of_uint d) = O).
  { intros d. pose proof (count_string_of_uint c d Hc) as Hd.
    destruct d; try exact Hd.
    apply (count_string_of_uint c (Decimal.D0 Decimal.Nil) Hc). }
  destruct (Z.to_int n) as [d|d]; simpl.
  - apply Hu.
  - rewrite Hu. destruct (Ascii.eqb c "-") eqn:E; [| reflexivity].
    apply Ascii.eqb_eq in E. subst c. discriminate Hc.
Qed.

(** ** The line primitive *)

Lemma count_a_dash_free (s : string) :
  (count "a" s < 3)%nat →
  contains dash_marker s = false ∧ contains dash_attribute_name s = false.
Proof.
  intros Hs. split.
  - destruct (contains dash_marker s) eqn:E; [| reflexivity].
    apply (contains_count "a") in E. vm_compute (count _ dash_marker) in E. lia.
  - destruct (contains dash_attribute_name s) eqn:E; [| reflexivity].
    apply (contains_count "a") in E.
    vm_compute (count _ dash_attribute_name) in E. lia.
Qed.

(** C8. For all endpoints, the string returned by [svg_string_draw_line]
    contains the attribute [stroke-dasharray="10,10"] exactly when [dashed]
    is true; when [dashed] is false it does not even contain the attribute
    name [stroke-dasharray]. *)
Theorem svg_string_draw_line_dash_marker (x1 y1 x2 y2 : Z) (dashed : bool)
    (g : globals) :
  ∃ s, svg_string_draw_line x1 y1 x2 y2 dashed g = (Ok s, g)
       ∧ contains dash_marker s = dashed
       ∧ contains dash_attribute_name s = dashed.
Proof.
  eexists. split; [reflexivity |]. destruct dashed.
  - split; apply contains_append_r, contains_append_l; vm_compute; reflexivity.
  - apply count_a_dash_free.
    rewrite !count_append, !count_str by reflexivity.
    vm_compute. lia.
Qed.

(** ** The arrowhead primitive *)

(** C5. The arrowhead is the triangle with tip [(x2, y2)] and base vertices
    [(bx, y2 + 5)] and [(bx, y2 - 5)], where [bx = x2 + 10] when [x1 > x2]
    and [bx = x2 - 10] otherwise, the vertical segment [x1 = x2] included. *)
Theorem svg_string_draw_arrow_head_triangle (x1 x2 y2 : Z) (g : globals) :
  ∃ bx,
    svg_string_draw_arrow_head x1 x2 y2 g
      = (Ok (triangle_path (x2, y2) (bx, y2 + 5) (bx, y2 - 5)), g)
    ∧ (x1 > x2 → bx = x2 + 10)
    ∧ (x1 ≤ x2 → bx = x2 - 10)
    ∧ (x1 = x2 → bx = x2 - 10).
Proof.
  unfold svg_string_draw_arrow_head.
  destruct (Z.gtb_spec x1 x2) as [Hgt | Hle].
  - exists (x2 + 10). split; [reflexivity |]. lia.
  - exists (x2 - 10). split; [reflexivity |]. lia.
Qed.

(** ** The state and exception monad *)

Lemma preserves_ret {A} (a : A) : preserves_globals (mret a).
Proof. intros g. reflexivity. Qed.

Lemma preserves_raise {A} (e : exn) : preserves_globals (@raise A e).
Proof. intros g. reflexivity. Qed.

Lemma preserves_get : preserves_globals get.
Proof. intros g. reflexivity. Qed.

Lemma preserves_bind {A B} (m : M A) (k : A → M B) :
  preserves_globals m → (∀ a, preserves_globals (k a)) →
  preserves_globals (m ≫= k).
Proof.
  intros Hm Hk g. unfold mbind, M_bind, Py.bind.
  specialize (Hm g). destruct (m g) as [[a | e] g']; simpl in Hm; subst g'.
  - apply Hk.
  - reflexivity.
Qed.

Lemma preserves_dict_getitem d k : preserves_globals (dict_getitem d k).
Proof.
  unfold dict_getitem. destruct (d !! k);
    [apply (preserves_ret (A:=string)) | apply preserves_raise].
Qed.

Lemma preserves_truediv `{PyFloat F} a b : preserves_globals (truediv a b).
Proof.
  unfold truediv. destruct (b =? 0); [apply preserves_raise |].
  destruct (float_overflow a b);
    [apply preserves_raise | apply (preserves_ret (A:=F))].
Qed.

Create HintDb preserves.
#[local] Hint Resolve preserves_get preserves_raise preserves_dict_getitem
  preserves_truediv : preserves.
#[local] Hint Extern 1 (preserves_globals (mret _)) =>
  apply preserves_ret : preserves.
#[local] Hint Extern 2 (preserves_globals (_ ≫= _)) =>
  apply preserves_bind; [| intros ?] : preserves.

Lemma truediv_nonzero `{PyFloat F} (a b : Z) (g : globals) :
  b ≠ 0 → float_overflow a b = false →
  truediv a b g = (Ok (int_truediv a b), g).
Proof.
  intros Hb Ho. unfold truediv. destruct (Z.eqb_spec b 0); [lia |].
  now rewrite Ho.
Qed.

Lemma truediv_overflow `{PyFloat F} (a b : Z) (g : globals) :
  b ≠ 0 → float_overflow a b = true →
  truediv a b g = (Raise OverflowError, g).
Proof.
  intros Hb Ho. unfold truediv. destruct (Z.eqb_spec b 0); [lia |].
  now rewrite Ho.
Qed.

Lemma bind_ok {A B} (m : M A) (k : A → M B) g a g' :
  m g = (Ok a, g') → (m ≫= k) g = k a g'.
Proof. intros Hm. unfold mbind, M_bind, Py.bind. now rewrite Hm. Qed.

(** ** The label primitive *)

Section Label.
Context {F : Type} `{PyFloat F}.

(** The leftward branch on a segment that is not horizontal, when the
    quotient of the deltas is in the range of a float. *)
Lemma svg_string_draw_label_leftward (x1 y1 x2 y2 : Z) (label : string)
    (g : globals) :
  x2 < x1 → y1 ≠ y2 → label_overflows x1 y1 x2 y2 = false →
  svg_string_draw_label x1 y1 x2 y2 label g
  = (Ok (text_element (x2 + 5, y2 - 5)
           (- math_ceil
                (div_3_14
                   (mul_int (math_atan (int_truediv (x2 - x1) (y2 - y1)))
                      180))
            - 90)
           AlignStart label), g).
Proof.
  intros Hx Hy Ho. unfold svg_string_draw_label, label_overflows in *.
  destruct (Z.ltb_spec x2 x1); [| lia].
  erewrite bind_ok by (apply truediv_nonzero; [lia | exact Ho]).
  reflexivity.
Qed.

(** The other branch on a segment that is not horizontal, when the three
    quotients are in the range of a float. *)
Lemma svg_string_draw_label_rightward (x1 y1 x2 y2 : Z) (label : string)
    (g : globals) :
  x1 ≤ x2 → y1 ≠ y2 → label_overflows x1 y1 x2 y2 = false →
  svg_string_draw_label x1 y1 x2 y2 label g
  = (Ok (text_element
           (math_ceil (int_truediv (x1 + x2) 2),
            math_ceil (int_truediv (y1 + y2) 2) - 5)
           (- math_ceil
                (div_3_14
                   (mul_int (math_atan (int_truediv (x1 - x2) (y1 - y2)))
                      180))
            + 90)
           AlignMiddle label), g).
Proof.
  intros Hx Hy Ho. unfold svg_string_draw_label, label_overflows in *.
  destruct (Z.ltb_spec x2 x1); [lia |].
  apply orb_false_elim in Ho as [Ho Hoy].
  apply orb_false_elim in Ho as [Hoq Hox].
  erewrite bind_ok by (apply truediv_nonzero; [lia | exact Hoq]).
  erewrite bind_ok by (apply truediv_nonzero; [lia | exact Hox]).
  erewrite bind_ok by (apply truediv_nonzero; [lia | exact Hoy]).
  rewrite (Z.add_comm x1 x2). reflexivity.
Qed.

(** C2. On every horizontal segment the division of the x-delta by the
    y-delta, which is zero, raises [ZeroDivisionError]: the label routine
    returns no string and computes no rotation.  It does so in both
    branches, whatever the label. *)
Theorem svg_string_draw_label_horizontal_raises (x1 x2 y : Z) (label : string)
    (g : globals) :
  svg_string_draw_label x1 y x2 y label g = (Raise ZeroDivisionError, g).
Proof.
  unfold svg_string_draw_label.
  destruct (x2 <? x1); rewrite Z.sub_diag; reflexivity.
Qed.

(** C3, amended. On a segment that is not horizontal, and on which no
    division of the routine leaves the range of a float, the label routine
    returns a text element whose rotation is, when [x2 < x1],
    [- ceil (atan ((x2 - x1) / (y2 - y1)) * 180 / 3.14) - 90], and, when
    [x2 >= x1], [- ceil (atan ((x1 - x2) / (y1 - y2)) * 180 / 3.14) + 90]:
    the angle is multiplied by 180 and divided by 3.14, which is not the
    conversion to degrees. *)
Theorem svg_string_draw_label_rotation (x1 y1 x2 y2 : Z) (label : string)
    (g : globals) :
  y1 ≠ y2 → label_overflows x1 y1 x2 y2 = false →
  (x2 < x1 →
   svg_string_draw_label x1 y1 x2 y2 label g
   = (Ok (text_element (x2 + 5, y2 - 5)
            (- math_ceil
                 (div_3_14
                    (mul_int (math_atan (int_truediv (x2 - x1) (y2 - y1)))
                       180))
             - 90)
            AlignStart label), g))
  ∧ (x1 ≤ x2 →
     svg_string_draw_label x1 y1 x2 y2 label g
     = (Ok (text_element
              (math_ceil (int_truediv (x1 + x2) 2),
               math_ceil (int_truediv (y1 + y2) 2) - 5)
              (- math_ceil
                   (div_3_14
                      (mul_int (math_atan (int_truediv (x1 - x2) (y1 - y2)))
                         180))
               + 90)
              AlignMiddle label), g)).
Proof.
  intros Hy Ho. split; intros Hx.
  - now apply svg_string_draw_label_leftward.
  - now apply svg_string_draw_label_rightward.
Qed.

(** C4, at two horizontal segments, one per branch: no label is anchored
    anywhere, the call raises [ZeroDivisionError]. *)
Theorem svg_string_draw_label_no_anchor_on_horizontal (g : globals) :
  svg_string_draw_label 10 0 0 0 "NET" g = (Raise ZeroDivisionError, g)
  ∧ svg_string_draw_label 0 0 10 0 "NET" g = (Raise ZeroDivisionError, g).
Proof. split; reflexivity. Qed.

(** ** The arrow composite *)

(** C6. The arrow routine is the composition of the three primitives on the
    same arguments: the line and the arrowhead always return a fragment, and
    the outcome of the arrow is the outcome of the label with these two
    fragments, in this order, put in front of the label fragment.  When the
    label raises, the arrow raises the same exception. *)
Theorem svg_string_draw_arrow_concat (x1 y1 x2 y2 : Z) (label : string)
    (dashed : bool) (g : globals) :
  ∃ line head,
    svg_string_draw_line x1 y1 x2 y2 dashed g = (Ok line, g)
    ∧ svg_string_draw_arrow_head x1 x2 y2 g = (Ok head, g)
    ∧ svg_string_draw_arrow x1 y1 x2 y2 label dashed g
      = match svg_string_draw_label x1 y1 x2 y2 label g with
        | (Ok text, g') => (Ok (line +:+ head +:+ text), g')
        | (Raise e, g') => (Raise e, g')
        end.
Proof.
  eexists _, _. split; [reflexivity |]. split; [reflexivity |].
  unfold svg_string_draw_arrow.
  erewrite bind_ok by reflexivity. erewrite bind_ok by reflexivity.
  unfold mbind, M_bind, Py.bind.
  destruct (svg_string_draw_label x1 y1 x2 y2 label g) as [[text | e] g'];
    reflexivity.
Qed.

(** ** Calls and the globals *)

Lemma preserves_svg_string_draw_label x1 y1 x2 y2 label :
  preserves_globals (svg_string_draw_label x1 y1 x2 y2 label).
Proof.
  unfold svg_string_draw_label. destruct (x2 <? x1); auto 10 with preserves.
Qed.

Lemma preserves_run_call (c : call) : preserves_globals (run_call c).
Proof.
  destruct c; simpl.
  - intros g. reflexivity.
  - intros g. reflexivity.
  - apply preserves_svg_string_draw_label.
  - unfold svg_string_draw_arrow.
    apply preserves_bind; [intros g; reflexivity | intros l].
    apply preserves_bind; [intros g; reflexivity | intros h].
    apply preserves_bind; [apply preserves_svg_string_draw_label | intros t].
    apply preserves_ret.
  - intros g. reflexivity.
  - intros g. reflexivity.
  - unfold prune_event_name_getitem. auto with preserves.
Qed.

Lemma run_calls_globals (cs : list call) (g : globals) : run_calls cs g = g.
Proof.
  revert g. induction cs as [| c cs IH]; intros g; [reflexivity |].
  simpl. rewrite (preserves_run_call c g). apply IH.
Qed.

End Label.

(** ** The event-name table *)

(** Every pair of the display is an entry of the table: no key is
    repeated in the display, and [setdefault] overwrites none. *)
Lemma prune_event_name_display_lookup :
  Forall (λ kv, prune_event_name !! kv.1 = Some kv.2) prune_event_name_display.
Proof. compute_done. Qed.

(** The entries of the table: those of the display, and the one that
    [setdefault] adds. *)
Lemma prune_event_name_lookup (k v : string) :
  prune_event_name !! k = Some v
  ↔ (k, v) ∈ prune_event_name_display ∨ (k, v) = (" ", "UNIDENTIFIED").
Proof.
  split.
  - revert k v.
    change (map_Forall
              (λ k v, (k, v) ∈ prune_event_name_display
                      ∨ (k, v) = (" ", "UNIDENTIFIED"))
              prune_event_name).
    compute_done.
  - intros [Hin | Heq].
    + pose proof prune_event_name_display_lookup as Hall.
      rewrite Forall_forall in Hall. apply (Hall (k, v) Hin).
    + injection Heq as -> ->. reflexivity.
Qed.

Lemma prune_event_name_getitem_Some (e v : string) (g : globals) :
  g_prune_event_name g !! e = Some v →
  prune_event_name_getitem e g = (Ok v, g).
Proof.
  intros Hv. unfold prune_event_name_getitem, dict_getitem.
  unfold mbind, M_bind, Py.bind, get. now rewrite Hv.
Qed.

Lemma prune_event_name_getitem_None (e : string) (g : globals) :
  g_prune_event_name g !! e = None →
  prune_event_name_getitem e g = (Raise (KeyError e), g).
Proof.
  intros Hv. unfold prune_event_name_getitem, dict_getitem.
  unfold mbind, M_bind, Py.bind, get. now rewrite Hv.
Qed.

(** A string that is neither a description of the display nor [" "] has no
    entry: its lookup raises [KeyError]. *)
Lemma prune_event_name_getitem_unknown (e : string) :
  (∀ v, (e, v) ∉ prune_event_name_display) → e ≠ " " →
  prune_event_name_getitem e initial_globals
  = (Raise (KeyError e), initial_globals).
Proof.
  intros Hdisplay Hspace. apply prune_event_name_getitem_None.
  change (g_prune_event_name initial_globals) with prune_event_name.
  destruct (prune_event_name !! e) as [v |] eqn:E; [| reflexivity].
  apply prune_event_name_lookup in E as [Hin | Heq].
  - destruct (Hdisplay v Hin).
  - congruence.
Qed.

(** C1. The lookup of a string that is not a key, here ["unknown event"],
    raises [KeyError]: the table holds no entry for it and no fallback is
    returned. *)
Theorem prune_event_name_unknown_event_raises :
  prune_event_name !! "unknown event" = None
  ∧ prune_event_name_getitem "unknown event" initial_globals
    = (Raise (KeyError "unknown event"), initial_globals).
Proof. split; reflexivity. Qed.

(** C7. For every entry of the table, that is every pair of the display
    and the pair [" " : "UNIDENTIFIED"], the lookup of the key returns the
    tag written next to it.  For a pair of the display this tag is the
    message type the description names (its third word).  In particular
    ["Federate sends NET to RTI"] gives ["NET"]. *)
Theorem prune_event_name_known_keys (k v : string) :
  (k, v) ∈ prune_event_name_display ∨ (k, v) = (" ", "UNIDENTIFIED") →
  prune_event_name_getitem k initial_globals = (Ok v, initial_globals)
  ∧ ((k, v) ∈ prune_event_name_display → String.words k !! 2%nat = Some v).
Proof.
  intros Hin. split.
  - apply prune_event_name_getitem_Some.
    now apply prune_event_name_lookup.
  - clear Hin. revert k v.
    assert (Hall : Forall (λ kv, String.words kv.1 !! 2%nat = Some kv.2)
                     prune_event_name_display) by compute_done.
    rewrite Forall_forall in Hall. intros k v Hin. apply (Hall (k, v) Hin).
Qed.

(** The example of C7: ["Federate sends NET to RTI"] gives ["NET"]. *)
Lemma prune_event_name_known_keys_NET :
  (("Federate sends NET to RTI", "NET") ∈ prune_event_name_display
   ∨ ("Federate sends NET to RTI", "NET") = (" ", "UNIDENTIFIED"))
  ∧ prune_event_name_getitem "Federate sends NET to RTI" initial_globals
    = (Ok "NET", initial_globals).
Proof.
  assert (Hin : ("Federate sends NET to RTI", "NET")
                ∈ prune_event_name_display
                ∨ ("Federate sends NET to RTI", "NET") = (" ", "UNIDENTIFIED"))
    by (left; apply list_elem_of_further, list_elem_of_here).
  split; [exact Hin |].
  exact (proj1 (prune_event_name_known_keys _ _ Hin)).
Defined.

(** C9, as the spec states it, fails: the table has an entry whose tag is
    not one of the glossary. *)
Lemma prune_event_name_tag_outside_glossary :
  ¬ (∀ k v, prune_event_name !! k = Some v → v ∈ glossary_tags).
Proof.
  intros Hall.
  assert (Hin : "STOP_REQ_REP" ∈ glossary_tags).
  { apply (Hall "Federate sends STOP_REQ_REP to RTI"). reflexivity. }
  revert Hin. compute_done.
Qed.

(** C9, amended. The table holds exactly the 27 pairs of the display and
    the pair [" " : "UNIDENTIFIED"], 28 entries in all; the tags that occur
    are exactly the eleven of the glossary, [STOP_REQ_REP] and
    [UNIDENTIFIED]. *)
Theorem prune_event_name_exact :
  (∀ k v, prune_event_name !! k = Some v
          ↔ (k, v) ∈ prune_event_name_display
            ∨ (k, v) = (" ", "UNIDENTIFIED"))
  ∧ length prune_event_name_display = 27%nat
  ∧ size prune_event_name = 28%nat
  ∧ (∀ v, (∃ k, prune_event_name !! k = Some v)
          ↔ v ∈ glossary_tags ∨ v = "STOP_REQ_REP" ∨ v = "UNIDENTIFIED").
Proof.
  split; [exact prune_event_name_lookup |].
  split; [reflexivity |]. split; [reflexivity |].
  intros v. split.
  - intros [k Hk]. revert k v Hk.
    change (map_Forall
              (λ (_ v : string),
                 v ∈ glossary_tags ∨ v = "STOP_REQ_REP" ∨ v = "UNIDENTIFIED")
              prune_event_name).
    compute_done.
  - rewrite <- (elem_of_map_img (SA:=gset string)).
    assert (Hall : Forall (λ v, v ∈ map_img (SA:=gset string) prune_event_name)
                     (glossary_tags ++ ["STOP_REQ_REP"; "UNIDENTIFIED"])%list)
      by compute_done.
    rewrite Forall_forall in Hall. intros Hv. apply Hall.
    rewrite elem_of_app, !elem_of_cons. tauto.
Qed.

(** C10. After initialization the table maps [" "] to ["UNIDENTIFIED"], no
    other key has this value, and no call of a routine of the module, nor a
    lookup, changes the globals: after any sequence of calls the table is
    the one initialization built. *)
Theorem prune_event_name_unidentified_entry :
  prune_event_name !! " " = Some "UNIDENTIFIED"
  ∧ (∀ k, prune_event_name !! k = Some "UNIDENTIFIED" → k = " ")
  ∧ (∀ (F : Type) (float : PyFloat F) (c : call) (g : globals),
       (run_call c g).2 = g)
  ∧ (∀ (F : Type) (float : PyFloat F) (cs : list call),
       g_prune_event_name (run_calls cs initial_globals) = prune_event_name).
Proof.
  split; [reflexivity |]. split.
  - assert (Hall : map_Forall (λ k v : string, v = "UNIDENTIFIED" → k = " ")
                     prune_event_name) by compute_done.
    intros k Hk. exact (Hall k _ Hk eq_refl).
  - split.
    + intros F float c. apply preserves_run_call.
    + intros F float cs. now rewrite run_calls_globals.
Qed.

(** ** Exact real arithmetic: ceilings and the diagonal *)

Lemma R_ceil_IZR (n : Z) : R_ceil (IZR n) = n.
Proof.
  unfold R_ceil. rewrite <- opp_IZR.
  rewrite <- (up_tech (IZR (- n)) (- n)).
  - lia.
  - apply Rle_refl.
  - apply IZR_lt. lia.
Qed.

(** [R_ceil x] is the integer [n] with [n - 1 < x <= n]. *)
Lemma R_ceil_spec (x : R) (n : Z) :
  (IZR n - 1 < x)%R → (x <= IZR n)%R → R_ceil x = n.
Proof.
  intros Hlo Hhi. unfold R_ceil.
  rewrite <- (up_tech (- x) (- n)).
  - lia.
  - rewrite opp_IZR. lra.
  - replace (- n + 1) with (- (n - 1)) by lia.
    rewrite opp_IZR, minus_IZR. lra.
Qed.

Lemma PI_bounds : (3.1415 < PI < 3.1421)%R.
Proof.
  destruct (PI_2_3_7_ineq 1) as [Hl Hu].
  unfold sum_f_R0, tg_alt, PI_2_3_7_tg, Ratan_seq in Hl, Hu.
  simpl in Hl, Hu. lra.
Qed.

Lemma R_quotient_diag (a : Z) : a ≠ 0 → int_truediv a a = 1%R.
Proof.
  intros Ha. simpl. field. intros Hz. apply eq_IZR_R0 in Hz. lia.
Qed.

(** A quotient of 1, an eighth of a turn: the routine computes 46 where
    the conversion to degrees gives 45. *)
Lemma R_scaled_eighth_turn (a : Z) :
  a ≠ 0 →
  math_ceil (div_3_14 (mul_int (math_atan (int_truediv a a)) 180)) = 46.
Proof.
  intros Ha. rewrite (R_quotient_diag a Ha). simpl.
  rewrite atan_1. pose proof PI_bounds as [Hlo Hhi].
  apply R_ceil_spec; lra.
Qed.

Lemma R_degrees_eighth_turn (a : Z) :
  a ≠ 0 → R_ceil (R_degrees (atan (IZR a / IZR a))) = 45.
Proof.
  intros Ha. pose proof (R_quotient_diag a Ha) as Hq. simpl in Hq.
  rewrite Hq, atan_1. unfold R_degrees.
  replace (PI / 4 * 180 / PI)%R with (IZR 45)
    by (pose proof PI_bounds; field; lra).
  apply R_ceil_IZR.
Qed.

Lemma R_midpoint_even (a : Z) :
  math_ceil (int_truediv (2 * a) 2) = a.
Proof.
  simpl. rewrite mult_IZR.
  replace (2 * IZR a / 2)%R with (IZR a) by field.
  apply R_ceil_IZR.
Qed.

(** ** Reading the fragments back *)

(** [str] is injective: a decimal rendering names one integer. *)
Lemma str_inj (a b : Z) : str a = str b → a = b.
Proof.
  unfold str. intros Hs.
  assert (Hnn : ∀ z, Z.to_int z ≠ Decimal.Pos Decimal.Nil
                     ∧ Z.to_int z ≠ Decimal.Neg Decimal.Nil).
  { intros [| p | p]; simpl; split; try discriminate;
      intros Hp; injection Hp as Hp;
      exact (Unsigned.to_uint_nonnil p Hp). }
  pose proof (NilZero.isi _ (proj1 (Hnn a)) (proj2 (Hnn a))) as Ha.
  pose proof (NilZero.isi _ (proj1 (Hnn b)) (proj2 (Hnn b))) as Hb.
  rewrite Hs, Hb in Ha. injection Ha as Ha.
  rewrite <- (DecimalZ.of_to a), <- (DecimalZ.of_to b). now rewrite Ha.
Qed.

(** Two strings free of the character [c], each followed by [c]: the
    first [c] marks where the first string ends. *)
Lemma append_sep_inj c (a b r r' : string) :
  count c a = O → count c b = O →
  a +:+ String c r = b +:+ String c r' → a = b ∧ r = r'.
Proof.
  revert b. induction a as [| x a IH]; intros [| y b] Ha Hb Heq.
  - injection Heq as ->. now split.
  - rewrite append_cons in Heq. injection Heq as <- _.
    simpl in Hb. rewrite Ascii.eqb_refl in Hb. discriminate.
  - rewrite append_cons in Heq. injection Heq as -> _.
    simpl in Ha. rewrite Ascii.eqb_refl in Ha. discriminate.
  - rewrite !append_cons in Heq. injection Heq as -> Heq.
    simpl in Ha, Hb. destruct (Ascii.eqb c y); [discriminate |].
    destruct (IH b Ha Hb Heq) as [-> ->]. now split.
Qed.

(** A number followed by a separator that starts with a character no
    number contains. *)
Lemma str_sep_inj c (sep : string) (a b : Z) (r r' : string) :
  numeric c = false →
  str a +:+ String c sep +:+ r = str b +:+ String c sep +:+ r' →
  a = b ∧ sep +:+ r = sep +:+ r'.
Proof.
  intros Hc Heq. rewrite !append_cons in Heq.
  apply append_sep_inj in Heq as [Hs Hr]; [| now apply count_str ..].
  split; [now apply str_inj | exact Hr].
Qed.

Lemma length_append (a b : string) :
  String.length (a +:+ b) = (String.length a + String.length b)%nat.
Proof.
  induction a as [| x a IH]; [reflexivity |].
  rewrite append_cons. simpl. now rewrite IH.
Qed.

(** Cancellation of a common ending. *)
Lemma append_inj_r (a b t : string) : a +:+ t = b +:+ t → a = b.
Proof.
  revert b. induction a as [| x a IH]; intros [| y b] Heq.
  - reflexivity.
  - apply (f_equal String.length) in Heq.
    rewrite append_cons in Heq. change (EmptyString +:+ t) with t in Heq.
    simpl in Heq. rewrite length_append in Heq. lia.
  - apply (f_equal String.length) in Heq.
    rewrite append_cons in Heq. change (EmptyString +:+ t) with t in Heq.
    simpl in Heq. rewrite length_append in Heq. lia.
  - rewrite !append_cons in Heq. injection Heq as -> Heq.
    now rewrite (IH b Heq).
Qed.

(** Strips, from an equation between two fragments, the pieces they share:
    a common fixed piece, or a number and the separator after it. *)
Ltac read_back H :=
  repeat first
    [ apply (inj (String.append _)) in H
    | apply str_sep_inj in H as [? H]; [| reflexivity] ].

(** The line fragment determines the two endpoints and the stroke style. *)
Theorem svg_string_draw_line_inj (x1 y1 x2 y2 x1' y1' x2' y2' : Z)
    (dashed dashed' : bool) (g g' : globals) :
  (svg_string_draw_line x1 y1 x2 y2 dashed g).1
  = (svg_string_draw_line x1' y1' x2' y2' dashed' g').1 →
  x1 = x1' ∧ y1 = y1' ∧ x2 = x2' ∧ y2 = y2' ∧ dashed = dashed'.
Proof.
  unfold svg_string_draw_line. simpl. intros H. injection H as H.
  destruct dashed, dashed'; rewrite !append_assoc in H; read_back H; subst;
    first [ done | vm_compute in H; discriminate H ].
Qed.

(** The arrowhead fragment determines the sink point and the side on which
    the base lies: the two orientations never give the same fragment. *)
Theorem svg_string_draw_arrow_head_inj (x1 x2 y2 x1' x2' y2' : Z)
    (g g' : globals) :
  (svg_string_draw_arrow_head x1 x2 y2 g).1
  = (svg_string_draw_arrow_head x1' x2' y2' g').1 →
  x2 = x2' ∧ y2 = y2' ∧ (x1 > x2 ↔ x1' > x2').
Proof.
  unfold svg_string_draw_arrow_head. simpl. intros H.
  destruct (Z.gtb_spec x1 x2), (Z.gtb_spec x1' x2');
    injection H as H; read_back H; lia.
Qed.

(** The comment fragment holds the comment as it is: two comments with the
    same fragment are the same string. *)
Theorem svg_string_comment_inj (comment comment' : string) (g g' : globals) :
  (svg_string_comment comment g).1 = (svg_string_comment comment' g').1 →
  comment = comment'.
Proof.
  unfold svg_string_comment. simpl. intros H. injection H as H.
  read_back H. now apply append_inj_r in H.
Qed.

(** The dot fragment determines the point and the label. *)
Theorem svg_string_draw_dot_inj (x y x' y' : Z) (label label' : string)
    (g g' : globals) :
  (svg_string_draw_dot x y label g).1 = (svg_string_draw_dot x' y' label' g').1 →
  x = x' ∧ y = y' ∧ label = label'.
Proof.
  unfold svg_string_draw_dot. simpl. intros H. injection H as H.
  rewrite !append_assoc in H. read_back H.
  apply append_inj_r in H. repeat split; (assumption || lia).
Qed.

Lemma Ok_inj {A} (a b : A) : Ok a = Ok b → a = b.
Proof. intros Heq. now injection Heq. Qed.

Lemma text_element_inj (p p' : Z * Z) (r r' : Z) (a a' : alignment)
    (l l' : string) :
  text_element p r a l = text_element p' r' a' l' →
  p = p' ∧ r = r' ∧ a = a' ∧ l = l'.
Proof.
  unfold text_element. destruct p as [px py], p' as [px' py']. simpl.
  intros H. read_back H. subst.
  destruct a, a'; simpl in H.
  - read_back H. apply append_inj_r in H. now subst.
  - cbv in H. discriminate H.
  - cbv in H. discriminate H.
  - read_back H. apply append_inj_r in H. now subst.
Qed.

Section LabelReadBack.
Context {F : Type} `{PyFloat F}.

Lemma svg_string_draw_label_zero_delta (x1 y1 x2 y2 : Z) (label : string)
    (g : globals) :
  y1 = y2 →
  svg_string_draw_label x1 y1 x2 y2 label g = (Raise ZeroDivisionError, g).
Proof.
  intros ->. unfold svg_string_draw_label.
  destruct (x2 <? x1); rewrite Z.sub_diag; reflexivity.
Qed.

Lemma svg_string_draw_label_overflow (x1 y1 x2 y2 : Z) (label : string)
    (g : globals) :
  y1 ≠ y2 → label_overflows x1 y1 x2 y2 = true →
  svg_string_draw_label x1 y1 x2 y2 label g = (Raise OverflowError, g).
Proof.
  intros Hy Ho. unfold svg_string_draw_label, label_overflows in *.
  unfold mbind, M_bind, Py.bind.
  destruct (x2 <? x1).
  - now rewrite truediv_overflow by (lia || exact Ho).
  - destruct (float_overflow (x1 - x2) (y1 - y2)) eqn:Hq.
    + now rewrite truediv_overflow by (lia || exact Hq).
    + rewrite (truediv_nonzero (x1 - x2)) by (lia || exact Hq).
      destruct (float_overflow (x2 + x1) 2) eqn:Hmx.
      * now rewrite truediv_overflow by (lia || exact Hmx).
      * rewrite (truediv_nonzero (x2 + x1)) by (lia || exact Hmx).
        simpl in Ho. now rewrite truediv_overflow by (lia || exact Ho).
Qed.

Lemma svg_string_draw_label_element (x1 y1 x2 y2 : Z) (label : string)
    (g : globals) :
  y1 ≠ y2 → label_overflows x1 y1 x2 y2 = false →
  ∃ p r,
    svg_string_draw_label x1 y1 x2 y2 label g
    = (Ok (text_element p r (if x2 <? x1 then AlignStart else AlignMiddle)
             label), g)
    ∧ (x2 < x1 → p = (x2 + 5, y2 - 5)).
Proof.
  intros Hy Ho. destruct (Z.ltb_spec x2 x1) as [Hlt | Hge].
  - eexists _, _. split; [now apply svg_string_draw_label_leftward |].
    reflexivity.
  - eexists _, _. split; [now apply svg_string_draw_label_rightward |]. lia.
Qed.

(** The three outcomes of the label routine exclude each other. *)
Lemma svg_string_draw_label_Ok (x1 y1 x2 y2 : Z) (label s : string)
    (g g1 : globals) :
  svg_string_draw_label x1 y1 x2 y2 label g = (Ok s, g1) →
  y1 ≠ y2 ∧ label_overflows x1 y1 x2 y2 = false.
Proof.
  intros Hs. destruct (decide (y1 = y2)) as [Hy | Hy].
  - rewrite svg_string_draw_label_zero_delta in Hs by exact Hy.
    discriminate Hs.
  - split; [exact Hy |].
    destruct (label_overflows x1 y1 x2 y2) eqn:Ho; [| reflexivity].
    rewrite svg_string_draw_label_overflow in Hs by assumption.
    discriminate Hs.
Qed.

(** Two calls of the label routine that return the same fragment have the
    same label text and took the same branch, and in the leftward branch
    the same sink point. *)
Theorem svg_string_draw_label_inj (x1 y1 x2 y2 x1' y1' x2' y2' : Z)
    (label label' s : string) (g g1 g' g1' : globals) :
  svg_string_draw_label x1 y1 x2 y2 label g = (Ok s, g1) →
  svg_string_draw_label x1' y1' x2' y2' label' g' = (Ok s, g1') →
  label = label'
  ∧ (x2 < x1 ↔ x2' < x1')
  ∧ (x2 < x1 → x2 = x2' ∧ y2 = y2').
Proof.
  intros Hs Hs'.
  destruct (svg_string_draw_label_Ok _ _ _ _ _ _ _ _ Hs) as [Hy Ho].
  destruct (svg_string_draw_label_Ok _ _ _ _ _ _ _ _ Hs') as [Hy' Ho'].
  destruct (svg_string_draw_label_element x1 y1 x2 y2 label g Hy Ho)
    as (p & r & Hl & Hp).
  destruct (svg_string_draw_label_element x1' y1' x2' y2' label' g' Hy' Ho')
    as (p' & r' & Hl' & Hp').
  rewrite Hl in Hs. rewrite Hl' in Hs'.
  apply (f_equal fst) in Hs, Hs'. cbn [fst] in Hs, Hs'.
  apply Ok_inj in Hs, Hs'. rewrite <- Hs' in Hs.
  apply text_element_inj in Hs as (Hpp & _ & Ha & Hll).
  split; [exact Hll |].
  destruct (Z.ltb_spec x2 x1), (Z.ltb_spec x2' x1'); try discriminate Ha.
  - split; [tauto |]. intros _.
    rewrite Hp, Hp' in Hpp by assumption. injection Hpp as Hx Hy2.
    lia.
  - split; lia.
Qed.

(** Reversing a leftward arrow turns its label by 180 degrees: both calls
    divide the same x-delta by the same y-delta, one subtracts 90 and the
    other adds 90.  The segment is not horizontal and no division of
    either call leaves the range of a float. *)
Theorem svg_string_draw_label_reverse (x1 y1 x2 y2 : Z) (label : string)
    (g : globals) :
  x2 < x1 → y1 ≠ y2 →
  label_overflows x1 y1 x2 y2 = false →
  label_overflows x2 y2 x1 y1 = false →
  ∃ p p' r,
    svg_string_draw_label x1 y1 x2 y2 label g
    = (Ok (text_element p r AlignStart label), g)
    ∧ svg_string_draw_label x2 y2 x1 y1 label g
      = (Ok (text_element p' (r + 180) AlignMiddle label), g).
Proof.
  intros Hx Hy Ho Ho'.
  set (c := math_ceil
              (div_3_14
                 (mul_int (math_atan (int_truediv (x2 - x1) (y2 - y1)))
                    180))).
  exists (x2 + 5, y2 - 5),
         (math_ceil (int_truediv (x2 + x1) 2),
          math_ceil (int_truediv (y2 + y1) 2) - 5),
         (- c - 90).
  split.
  - now apply svg_string_draw_label_leftward.
  - rewrite svg_string_draw_label_rightward by (lia || exact Ho'). fold c.
    replace (- c - 90 + 180) with (- c + 90) by lia. reflexivity.
Qed.

Lemma svg_string_draw_arrow_label (x1 y1 x2 y2 : Z) (label : string)
    (dashed : bool) (g : globals) :
  ∃ line head,
    svg_string_draw_line x1 y1 x2 y2 dashed g = (Ok line, g)
    ∧ svg_string_draw_arrow_head x1 x2 y2 g = (Ok head, g)
    ∧ svg_string_draw_arrow x1 y1 x2 y2 label dashed g
      = match svg_string_draw_label x1 y1 x2 y2 label g with
        | (Ok text, g') => (Ok (line +:+ head +:+ text), g')
        | (Raise e, g') => (Raise e, g')
        end.
Proof.
  eexists _, _. split; [reflexivity |]. split; [reflexivity |].
  unfold svg_string_draw_arrow.
  erewrite bind_ok by reflexivity. erewrite bind_ok by reflexivity.
  unfold mbind, M_bind, Py.bind.
  destruct (svg_string_draw_label x1 y1 x2 y2 label g) as [[text | e] g'];
    reflexivity.
Qed.



End LabelReadBack.

(** ** More on the event-name table *)

Lemma strip_prefix_spec (p s r : string) :
  strip_prefix p s = Some r ↔ s = p +:+ r.
Proof.
  revert s. induction p as [| a p IH]; intros s.
  - simpl. split; [intros [= ->]; reflexivity | intros ->; reflexivity].
  - destruct s as [| b s]; simpl.
    + split; [discriminate | intros Hs; discriminate Hs].
    + rewrite append_cons. destruct (Ascii.eqb_spec a b) as [-> | Hab].
      * rewrite IH. split; [intros ->; reflexivity | intros [= ->]; reflexivity].
      * split; [discriminate | intros [= Hb _]; congruence].
Qed.

Lemma strip_suffix_spec (t s a : string) :
  strip_suffix t s = Some a ↔ s = a +:+ t.
Proof.
  revert a. induction s as [| c s IH]; intros a; cbn [strip_suffix].
  - destruct (String.eqb EmptyString t) eqn:E.
    + apply String.eqb_eq in E as <-.
      split; [intros [= <-]; reflexivity |].
      destruct a; [reflexivity | discriminate].
    + apply String.eqb_neq in E.
      split; [discriminate |].
      destruct a; [intros Hs; now destruct E | discriminate].
  - destruct (String.eqb (String c s) t) eqn:E.
    + apply String.eqb_eq in E as <-.
      split; [intros [= <-]; reflexivity |].
      intros Hs. f_equal. symmetry.
      apply (append_inj_r a EmptyString (String c s)). symmetry. exact Hs.
    + apply String.eqb_neq in E. destruct a as [| x a].
      * split; [| intros Hs; now destruct E].
        destruct (strip_suffix t s); discriminate.
      * rewrite append_cons. specialize (IH a).
        destruct (strip_suffix t s) as [a' |]; simpl.
        -- split.
           ++ intros [= -> ->]. f_equal. now apply IH.
           ++ intros [= -> Hs]. do 2 f_equal.
              apply (inj Some). now apply IH.
        -- split; [discriminate |].
           intros [= -> Hs]. apply IH in Hs. discriminate Hs.
Qed.

Lemma between_spec (p t x : string) :
  between p t (p +:+ x +:+ t) = Some x.
Proof.
  unfold between.
  rewrite (proj2 (strip_prefix_spec p _ (x +:+ t)) eq_refl). simpl.
  now apply strip_suffix_spec.
Qed.

#[local] Instance match_option_dec {A} (P : A → Prop)
    `{∀ x, Decision (P x)} (mx : option A) :
  Decision (match mx with Some x => P x | None => True end).
Proof. destruct mx; apply _. Defined.

(** A property of the message type of every key of the shape
    [p +:+ tag +:+ t], checked on the entries of the table. *)
Lemma prune_event_name_by_shape (p t : string) (P : string → Prop)
    `{∀ x, Decision (P x)} :
  map_Forall
    (λ k _, match between p t k with Some x => P x | None => True end)
    prune_event_name →
  ∀ x, is_Some (prune_event_name !! (p +:+ x +:+ t)) → P x.
Proof.
  intros Hall x [v Hv]. specialize (Hall _ _ Hv). simpl in Hall.
  now rewrite between_spec in Hall.
Qed.

Lemma prune_event_name_getitem_Ok (e v : string) (g g' : globals) :
  prune_event_name_getitem e g = (Ok v, g') →
  g_prune_event_name g !! e = Some v.
Proof.
  unfold prune_event_name_getitem, dict_getitem.
  unfold mbind, M_bind, Py.bind, get.
  destruct (g_prune_event_name g !! e); [| discriminate].
  intros Heq. apply (f_equal fst) in Heq. apply Ok_inj in Heq.
  now rewrite Heq.
Qed.

(** No short tag is itself a key: the lookup of the result of a lookup
    raises [KeyError], so the table cannot be applied twice to a name. *)
Theorem prune_event_name_getitem_twice (k v : string) :
  prune_event_name_getitem k initial_globals = (Ok v, initial_globals) →
  prune_event_name_getitem v initial_globals
  = (Raise (KeyError v), initial_globals).
Proof.
  intros Hk. apply prune_event_name_getitem_Ok in Hk.
  apply prune_event_name_getitem_None.
  change (g_prune_event_name initial_globals) with prune_event_name in *.
  assert (Hall : map_Forall (λ _ v : string, prune_event_name !! v = None)
                   prune_event_name) by compute_done.
  exact (Hall k v Hk).
Qed.

(** The two sides of an exchange.  A message type has a key for its
    sending by a federate to the RTI exactly when it has one for its
    reception by the RTI, and likewise between federates.  A message type
    with a key for its reception from the RTI has one for its sending by
    the RTI; the converse holds for every type but [JOIN], which has a key
    on the side of the RTI only. *)
Theorem prune_event_name_two_sides (tag : string) :
  (is_Some (prune_event_name !! federate_sends tag)
   ↔ is_Some (prune_event_name !! rti_receives tag))
  ∧ (is_Some (prune_event_name !! ("Federate sends " +:+ tag +:+ " to federate"))
     ↔ is_Some (prune_event_name
                  !! ("Federate receives " +:+ tag +:+ " from federate")))
  ∧ (is_Some (prune_event_name !! federate_receives tag)
     → is_Some (prune_event_name !! rti_sends tag))
  ∧ (is_Some (prune_event_name !! rti_sends tag)
     → tag = "JOIN" ∨ is_Some (prune_event_name !! federate_receives tag))
  ∧ (tag = "JOIN" → prune_event_name !! rti_sends tag = Some "JOIN"
                    ∧ prune_event_name !! federate_receives tag = None).
Proof.
  repeat split.
  - revert tag. apply prune_event_name_by_shape; [apply _ | compute_done].
  - revert tag. apply prune_event_name_by_shape; [apply _ | compute_done].
  - revert tag. apply prune_event_name_by_shape; [apply _ | compute_done].
  - revert tag. apply prune_event_name_by_shape; [apply _ | compute_done].
  - revert tag. apply prune_event_name_by_shape; [apply _ | compute_done].
  - revert tag. apply prune_event_name_by_shape; [apply _ | compute_done].
  - subst tag. reflexivity.
  - subst tag. reflexivity.
Qed.

(** ** Reading an arrow back *)

Section ArrowReadBack.
Context {F : Type} `{PyFloat F}.

Lemma svg_string_draw_arrow_element (x1 y1 x2 y2 : Z) (label s : string)
    (dashed : bool) (g g1 : globals) :
  svg_string_draw_arrow x1 y1 x2 y2 label dashed g = (Ok s, g1) →
  ∃ line head p r a,
    svg_string_draw_line x1 y1 x2 y2 dashed g = (Ok line, g)
    ∧ svg_string_draw_arrow_head x1 x2 y2 g = (Ok head, g)
    ∧ s = line +:+ head +:+ text_element p r a label.
Proof.
  intros Hs.
  destruct (svg_string_draw_arrow_label x1 y1 x2 y2 label dashed g)
    as (l & h & Hl & Hh & Ha).
  rewrite Ha in Hs.
  destruct (svg_string_draw_label x1 y1 x2 y2 label g) as [[t | e] g'] eqn:Ht;
    [| discriminate Hs].
  destruct (svg_string_draw_label_Ok _ _ _ _ _ _ _ _ Ht) as [Hy Ho].
  destruct (svg_string_draw_label_element x1 y1 x2 y2 label g Hy Ho)
    as (p & r & Hp & _).
  rewrite Hp in Ht. apply (f_equal fst) in Ht, Hs. cbn [fst] in Ht, Hs.
  apply Ok_inj in Ht, Hs. subst t s.
  now exists l, h, p, r, (if x2 <? x1 then AlignStart else AlignMiddle).
Qed.

(** Two calls of the arrow routine that return the same fragment have the
    same arguments: the two endpoints, the label and the stroke style. *)
Theorem svg_string_draw_arrow_inj (x1 y1 x2 y2 x1' y1' x2' y2' : Z)
    (label label' s : string) (dashed dashed' : bool)
    (g g1 g' g1' : globals) :
  svg_string_draw_arrow x1 y1 x2 y2 label dashed g = (Ok s, g1) →
  svg_string_draw_arrow x1' y1' x2' y2' label' dashed' g' = (Ok s, g1') →
  x1 = x1' ∧ y1 = y1' ∧ x2 = x2' ∧ y2 = y2'
  ∧ label = label' ∧ dashed = dashed'.
Proof.
  intros Hs Hs'.
  destruct (svg_string_draw_arrow_element _ _ _ _ _ _ _ _ _ Hs)
    as (l & h & p & r & a & Hl & Hh & Ha).
  destruct (svg_string_draw_arrow_element _ _ _ _ _ _ _ _ _ Hs')
    as (l' & h' & p' & r' & a' & Hl' & Hh' & Ha').
  assert (Heq : l +:+ h +:+ text_element p r a label
                = l' +:+ h' +:+ text_element p' r' a' label')
    by (rewrite <- Ha, <- Ha'; reflexivity).
  clear Hs Hs' Ha Ha'.
  remember (text_element p r a label) as te eqn:Hte.
  remember (text_element p' r' a' label') as te' eqn:Hte'.
  unfold svg_string_draw_line in Hl, Hl'.
  unfold svg_string_draw_arrow_head in Hh, Hh'.
  apply (f_equal fst) in Hl, Hl', Hh, Hh'. cbn [fst mret M_ret Py.ret] in *.
  apply Ok_inj in Hl, Hl', Hh, Hh'. subst l l' h h'.
  assert (Hdec : x1 = x1' ∧ y1 = y1' ∧ x2 = x2' ∧ y2 = y2'
                 ∧ dashed = dashed' ∧ te = te').
  { destruct dashed, dashed', (Z.gtb_spec x1 x2), (Z.gtb_spec x1' x2');
      rewrite !append_assoc in Heq; read_back Heq;
      first [ repeat split; (assumption || lia)
            | exfalso; lia
            | exfalso; cbv in Heq; discriminate Heq ]. }
  destruct Hdec as (-> & -> & -> & -> & -> & Hte2).
  rewrite Hte, Hte' in Hte2.
  apply text_element_inj in Hte2 as (_ & _ & _ & ->).
  repeat split.
Qed.

Lemma label_overflows_bounded (x1 y1 x2 y2 : Z) :
  Z.abs x1 ≤ 2 ^ 1022 → Z.abs y1 ≤ 2 ^ 1022 →
  Z.abs x2 ≤ 2 ^ 1022 → Z.abs y2 ≤ 2 ^ 1022 →
  y1 ≠ y2 → label_overflows x1 y1 x2 y2 = false.
Proof.
  intros Hx1 Hy1 Hx2 Hy2 Hy. unfold label_overflows, float_overflow.
  assert (Hp : 2 ^ 1024 = 4 * 2 ^ 1022) by reflexivity.
  assert (Hs : 0 < 2 ^ 970 ∧ 2 ^ 970 < 2 ^ 1022) by (split; reflexivity).
  rewrite Hp. clear Hp.
  remember (2 ^ 1022) as big eqn:Hbig.
  remember (2 ^ 970) as small eqn:Hsmall.
  clear Hbig Hsmall.
  destruct (x2 <? x1); rewrite ?orb_false_iff, !Z.leb_gt;
    repeat split; nia.
Qed.

(** On coordinates of magnitude at most [2^1022] the only failure of the
    arrow routine is the horizontal segment: it returns a string exactly
    when [y1] and [y2] differ, and raises [ZeroDivisionError] otherwise. *)
Theorem svg_string_draw_arrow_bounded (x1 y1 x2 y2 : Z) (label : string)
    (dashed : bool) (g : globals) :
  Z.abs x1 ≤ 2 ^ 1022 → Z.abs y1 ≤ 2 ^ 1022 →
  Z.abs x2 ≤ 2 ^ 1022 → Z.abs y2 ≤ 2 ^ 1022 →
  ((∃ s, svg_string_draw_arrow x1 y1 x2 y2 label dashed g = (Ok s, g))
   ↔ y1 ≠ y2)
  ∧ (svg_string_draw_arrow x1 y1 x2 y2 label dashed g
     = (Raise ZeroDivisionError, g)
     ↔ y1 = y2).
Proof.
  intros Hx1 Hy1 Hx2 Hy2.
  destruct (svg_string_draw_arrow_label x1 y1 x2 y2 label dashed g)
    as (l & h & _ & _ & Ha).
  destruct (decide (y1 = y2)) as [Hy | Hy].
  - rewrite svg_string_draw_label_zero_delta in Ha by exact Hy.
    rewrite Ha. split; split.
    + intros [s Hs]. discriminate Hs.
    + intros Hn. destruct (Hn Hy).
    + intros _. exact Hy.
    + reflexivity.
  - pose proof (label_overflows_bounded x1 y1 x2 y2 Hx1 Hy1 Hx2 Hy2 Hy)
      as Ho.
    destruct (svg_string_draw_label_element x1 y1 x2 y2 label g Hy Ho)
      as (p & r & Hl & _).
    rewrite Hl in Ha. rewrite Ha. split; split.
    + intros _. exact Hy.
    + intros _. eexists. reflexivity.
    + intros Hf. discriminate Hf.
    + intros Hy'. destruct (Hy Hy').
Qed.

End ArrowReadBack.

(** ** The comment primitive does not escape *)

(** The comment is copied as it is between the opening and the closing of
    the markup comment: the text before the closing [ -->] contains the
    terminator [-->] exactly when the comment itself does. *)
Theorem svg_string_comment_no_escape (comment : string) (g : globals) :
  ∃ body,
    svg_string_comment comment g = (Ok (body +:+ " -->" +:+ nl), g)
    ∧ contains "-->" body = contains "-->" comment.
Proof.
  exists (nl +:+ tab +:+ "<!-- " +:+ comment). split.
  - unfold svg_string_comment. now rewrite !append_assoc.
  - reflexivity.
Qed.

(** ** Instances of the properties with a hypothesis *)

Lemma svg_string_draw_line_inj_example :
  (svg_string_draw_line 0 0 100 50 true initial_globals).1
  = (svg_string_draw_line 0 0 100 50 true (Globals ∅)).1
  ∧ (0 = 0 ∧ 0 = 0 ∧ 100 = 100 ∧ 50 = 50 ∧ true = true).
Proof.
  split; [reflexivity |].
  exact (svg_string_draw_line_inj 0 0 100 50 0 0 100 50 true true
           initial_globals (Globals ∅) eq_refl).
Defined.

Lemma svg_string_draw_arrow_head_inj_example :
  (svg_string_draw_arrow_head 0 100 50 initial_globals).1
  = (svg_string_draw_arrow_head 7 100 50 initial_globals).1
  ∧ (100 = 100 ∧ 50 = 50 ∧ (0 > 100 ↔ 7 > 100)).
Proof.
  split; [reflexivity |].
  exact (svg_string_draw_arrow_head_inj 0 100 50 7 100 50
           initial_globals initial_globals eq_refl).
Defined.

Lemma svg_string_comment_inj_example :
  (svg_string_comment "RTI" initial_globals).1
  = (svg_string_comment "RTI" (Globals ∅)).1
  ∧ "RTI" = "RTI".
Proof.
  split; [reflexivity |].
  exact (svg_string_comment_inj "RTI" "RTI" initial_globals (Globals ∅)
           eq_refl).
Defined.

Lemma svg_string_draw_dot_inj_example :
  (svg_string_draw_dot 10 (-3) "NET" initial_globals).1
  = (svg_string_draw_dot 10 (-3) "NET" (Globals ∅)).1
  ∧ (10 = 10 ∧ -3 = -3 ∧ "NET" = "NET").
Proof.
  split; [reflexivity |].
  exact (svg_string_draw_dot_inj 10 (-3) 10 (-3) "NET" "NET"
           initial_globals (Globals ∅) eq_refl).
Defined.

(** The diagonal towards the origin, in exact real arithmetic: the label
    of the segment from [(a, a)] to [(0, 0)] is rotated by [-136]. *)
Lemma R_label_diagonal_leftward (a : Z) (label : string) (g : globals) :
  0 < a → label_overflows a a 0 0 = false →
  svg_string_draw_label (F:=R) a a 0 0 label g
  = (Ok (text_element (5, -5) (-136) AlignStart label), g).
Proof.
  intros Ha Ho.
  rewrite svg_string_draw_label_leftward by (lia || exact Ho).
  rewrite (R_scaled_eighth_turn (0 - a)) by lia. reflexivity.
Qed.

(** The same diagonal away from the origin: the label is rotated by [44]. *)
Lemma R_label_diagonal_rightward (label : string) (g : globals) :
  svg_string_draw_label (F:=R) 0 0 10 10 label g
  = (Ok (text_element (5, 0) 44 AlignMiddle label), g).
Proof.
  rewrite svg_string_draw_label_rightward by (lia || reflexivity).
  rewrite (R_scaled_eighth_turn (0 - 10)) by lia.
  change (0 + 10) with (2 * 5). rewrite (R_midpoint_even 5). reflexivity.
Qed.

(** The segments from [(10, 10)] and from [(20, 20)] to the origin have
    the same label fragment: the fragment tells the sink, not the source. *)
Lemma svg_string_draw_label_inj_example :
  svg_string_draw_label (F:=R) 10 10 0 0 "NET" initial_globals
  = (Ok (text_element (5, -5) (-136) AlignStart "NET"), initial_globals)
  ∧ svg_string_draw_label (F:=R) 20 20 0 0 "NET" initial_globals
    = (Ok (text_element (5, -5) (-136) AlignStart "NET"), initial_globals)
  ∧ ("NET" = "NET" ∧ (0 < 10 ↔ 0 < 20) ∧ (0 < 10 → 0 = 0 ∧ 0 = 0)).
Proof.
  assert (H10 : svg_string_draw_label (F:=R) 10 10 0 0 "NET" initial_globals
                = (Ok (text_element (5, -5) (-136) AlignStart "NET"),
                   initial_globals))
    by (apply R_label_diagonal_leftward; [lia | reflexivity]).
  assert (H20 : svg_string_draw_label (F:=R) 20 20 0 0 "NET" initial_globals
                = (Ok (text_element (5, -5) (-136) AlignStart "NET"),
                   initial_globals))
    by (apply R_label_diagonal_leftward; [lia | reflexivity]).
  split; [exact H10 |]. split; [exact H20 |].
  exact (svg_string_draw_label_inj (F:=R) 10 10 0 0 20 20 0 0 "NET" "NET" _
           initial_globals initial_globals initial_globals initial_globals
           H10 H20).
Defined.

Lemma svg_string_draw_label_reverse_example :
  0 < 10 ∧ 10 ≠ 0
  ∧ label_overflows 10 10 0 0 = false ∧ label_overflows 0 0 10 10 = false
  ∧ ∃ p p' r,
      svg_string_draw_label (F:=R) 10 10 0 0 "NET" initial_globals
      = (Ok (text_element p r AlignStart "NET"), initial_globals)
      ∧ svg_string_draw_label (F:=R) 0 0 10 10 "NET" initial_globals
        = (Ok (text_element p' (r + 180) AlignMiddle "NET"), initial_globals).
Proof.
  assert (Hx : 0 < 10) by lia. assert (Hy : 10 ≠ 0) by lia.
  assert (Ho : label_overflows 10 10 0 0 = false) by reflexivity.
  assert (Ho' : label_overflows 0 0 10 10 = false) by reflexivity.
  split; [exact Hx |]. split; [exact Hy |].
  split; [exact Ho |]. split; [exact Ho' |].
  exact (svg_string_draw_label_reverse (F:=R) 10 10 0 0 "NET"
           initial_globals Hx Hy Ho Ho').
Defined.

Lemma svg_string_draw_arrow_inj_example :
  ∃ s,
    svg_string_draw_arrow (F:=R) 10 10 0 0 "NET" false initial_globals
    = (Ok s, initial_globals)
    ∧ (10 = 10 ∧ 10 = 10 ∧ 0 = 0 ∧ 0 = 0 ∧ "NET" = "NET" ∧ false = false).
Proof.
  destruct (svg_string_draw_arrow_label (F:=R) 10 10 0 0 "NET" false
              initial_globals) as (l & h & _ & _ & Ha).
  rewrite R_label_diagonal_leftward in Ha by (lia || reflexivity).
  eexists. split; [exact Ha |].
  exact (svg_string_draw_arrow_inj (F:=R) 10 10 0 0 10 10 0 0 "NET" "NET" _
           false false initial_globals initial_globals initial_globals
           initial_globals Ha Ha).
Defined.


Lemma svg_string_draw_arrow_bounded_example :
  (Z.abs 0 ≤ 2 ^ 1022 ∧ Z.abs 0 ≤ 2 ^ 1022
   ∧ Z.abs 100 ≤ 2 ^ 1022 ∧ Z.abs 50 ≤ 2 ^ 1022)
  ∧ ((∃ s, svg_string_draw_arrow (F:=R) 0 0 100 50 "TIMESTAMP" false
             initial_globals = (Ok s, initial_globals))
     ↔ 0 ≠ 50)
  ∧ (svg_string_draw_arrow (F:=R) 0 0 100 50 "TIMESTAMP" false
       initial_globals
     = (Raise ZeroDivisionError, initial_globals)
     ↔ 0 = 50).
Proof.
  assert (H0 : Z.abs 0 ≤ 2 ^ 1022) by (intros Hc; discriminate Hc).
  assert (H100 : Z.abs 100 ≤ 2 ^ 1022) by (intros Hc; discriminate Hc).
  assert (H50 : Z.abs 50 ≤ 2 ^ 1022) by (intros Hc; discriminate Hc).
  split; [repeat split; assumption |].
  exact (svg_string_draw_arrow_bounded (F:=R) 0 0 100 50 "TIMESTAMP" false
           initial_globals H0 H0 H100 H50).
Defined.

Lemma prune_event_name_getitem_twice_example :
  prune_event_name_getitem "RTI sends JOIN to federate" initial_globals
  = (Ok "JOIN", initial_globals)
  ∧ prune_event_name_getitem "JOIN" initial_globals
    = (Raise (KeyError "JOIN"), initial_globals).
Proof.
  split; [reflexivity |].
  exact (prune_event_name_getitem_twice "RTI sends JOIN to federate" "JOIN"
           eq_refl).
Defined.

(** ** The rotation is not a number of degrees *)

(** Both branches of C3 on a diagonal, in exact real arithmetic: from
    [(10, 10)] to the origin the label is rotated by [-136], from the
    origin to [(10, 10)] by [44]. *)
Lemma svg_string_draw_label_rotation_diagonal :
  (10 ≠ 0 ∧ label_overflows 10 10 0 0 = false ∧ 0 < 10
   ∧ svg_string_draw_label (F:=R) 10 10 0 0 "NET" initial_globals
     = (Ok (text_element (5, -5) (-136) AlignStart "NET"), initial_globals))
  ∧ (0 ≠ 10 ∧ label_overflows 0 0 10 10 = false ∧ 0 ≤ 10
     ∧ svg_string_draw_label (F:=R) 0 0 10 10 "NET" initial_globals
       = (Ok (text_element (5, 0) 44 AlignMiddle "NET"), initial_globals)).
Proof.
  assert (Hy : 10 ≠ 0) by lia. assert (Hy' : 0 ≠ 10) by lia.
  assert (Hx : 0 < 10) by lia. assert (Hx' : 0 ≤ 10) by lia.
  assert (Ho : label_overflows 10 10 0 0 = false) by reflexivity.
  assert (Ho' : label_overflows 0 0 10 10 = false) by reflexivity.
  split.
  - split; [exact Hy |]. split; [exact Ho |]. split; [exact Hx |].
    rewrite (proj1 (svg_string_draw_label_rotation (F:=R) 10 10 0 0 "NET"
                      initial_globals Hy Ho) Hx).
    rewrite (R_scaled_eighth_turn (0 - 10)) by lia. reflexivity.
  - split; [exact Hy' |]. split; [exact Ho' |]. split; [exact Hx' |].
    rewrite (proj2 (svg_string_draw_label_rotation (F:=R) 0 0 10 10 "NET"
                      initial_globals Hy' Ho') Hx').
    rewrite (R_scaled_eighth_turn (0 - 10)) by lia.
    change (0 + 10) with (2 * 5). rewrite (R_midpoint_even 5). reflexivity.
Defined.

(** C3, as the spec states it, fails.  In exact real arithmetic the label
    of the segment from [(10, 10)] to the origin is rotated by [-136],
    where minus the ceiling of the angle converted to degrees, minus 90, is
    [-135]; and on the segment from the origin to [(10^400, 1)], which is
    not horizontal, no rotation is emitted: the call raises
    [OverflowError]. *)
Lemma svg_string_draw_label_rotation_not_degrees :
  (∃ r,
     svg_string_draw_label (F:=R) 10 10 0 0 "NET" initial_globals
     = (Ok (text_element (5, -5) r AlignStart "NET"), initial_globals)
     ∧ r = -136
     ∧ - R_ceil (R_degrees (atan (IZR (0 - 10) / IZR (0 - 10)))) - 90 = -135
     ∧ r ≠ - R_ceil (R_degrees (atan (IZR (0 - 10) / IZR (0 - 10)))) - 90)
  ∧ svg_string_draw_label (F:=R) 0 0 (10 ^ 400) 1 "NET" initial_globals
    = (Raise OverflowError, initial_globals).
Proof.
  split.
  - exists (-136). split.
    + apply R_label_diagonal_leftward; [lia | reflexivity].
    + split; [reflexivity |].
      rewrite (R_degrees_eighth_turn (0 - 10)) by lia. split; lia.
  - apply svg_string_draw_label_overflow; [lia | reflexivity].
Qed.
